(** * Dependency wiring of the voice-agent API: src/api/dependencies.py

    A shallow embedding of the three groups of FastAPI dependencies the
    module defines:
    - [get_db], the scoped session provider (an async generator with a
      try/finally around its single yield);
    - the three repository factories;
    - [get_validated_tool_call], the factory of tool-call validators.

    Python exceptions are values of [exn]; code that may raise and that
    logs runs in the monad [M], a writer of [event]s over an error sum. *)

From Stdlib Require Import String Ascii List ZArith Bool Lia DecimalString.
Import ListNotations.
Local Open Scope string_scope.
Local Open Scope Z_scope.

(** ** Exceptions *)

(** What Python code can raise, by the classes the handlers of
    [validate_dependency] discriminate on (lines 54, 56 and 62).
    [OtherError] stands for any subclass of [Exception] that is neither
    fastapi's [HTTPException] nor pydantic's [ValidationError]
    (json.JSONDecodeError, TypeError, ...); [BaseError] for any class that
    derives from [BaseException] and not from [Exception] (KeyboardInterrupt,
    SystemExit, GeneratorExit, asyncio.CancelledError).  Both carry the class
    name and the text [str(e)] gives. *)
Inductive exn : Type :=
| HTTPException (status_code : Z) (detail : string)
| ValidationError (msg : string)
| OtherError (cls : string) (msg : string)
| BaseError (cls : string) (msg : string).

(** [str(e)] as the handlers at lines 57, 60, 63 and 64 use it; an
    HTTPException prints as its status, a colon and its detail. *)
Definition str (e : exn) : string :=
  match e with
  | HTTPException s d => NilZero.string_of_int (Z.to_int s) ++ ": " ++ d
  | ValidationError m => m
  | OtherError _ m => m
  | BaseError _ m => m
  end.

(** [isinstance(e, Exception)]: what the clause of line 62 catches. *)
Definition is_Exception (e : exn) : bool :=
  match e with BaseError _ _ => false | _ => true end.

Definition is_HTTPException (e : exn) : bool :=
  match e with HTTPException _ _ => true | _ => false end.

Definition is_ValidationError (e : exn) : bool :=
  match e with ValidationError _ => true | _ => false end.

(** ** Structured values *)

(** What a JSON parser hands back to Python: None, bool, int or float (a
    decimal mantissa and exponent: an int has exponent 0, a float is written
    with another exponent, 1.0 as 10 and -1), str, list, dict with string
    keys. *)
#[local] Set Warnings "-register-all".
Inductive json : Type :=
| JNull
| JBool (b : bool)
| JNumber (mantissa exponent : Z)
| JString (s : string)
| JArray (items : list json)
| JObject (members : list (string * json)).

(** The name Python prints for the type of a value in a call error. *)
Definition type_name (v : json) : string :=
  match v with
  | JNull => "NoneType"
  | JBool _ => "bool"
  | JNumber _ e => if e =? 0 then "int" else "float"
  | JString _ => "str"
  | JArray _ => "list"
  | JObject _ => "dict"
  end.

(** ** Observable effects *)

(** What the validator does besides returning: the two logger calls and the
    calls into its collaborators, in program order. *)
Inductive event : Type :=
| LogInfo (msg : string)
| LogError (msg : string)
| CallParse (raw : string)
| CallModel (kwargs : list (string * json)).

(** A computation: the events it emitted, then an exception or a value. *)
Definition M (A : Type) : Type := (list event * (exn + A))%type.

Definition ret {A} (a : A) : M A := ([], inr a).
Definition raise {A} (e : exn) : M A := ([], inl e).
Definition tell (ev : event) : M unit := ([ev], inr tt).

Definition bind {A B} (m : M A) (k : A -> M B) : M B :=
  match m with
  | (t, inl e) => (t, inl e)
  | (t, inr a) => let '(t', r) := k a in ((t ++ t')%list, r)
  end.

(** try: [m] except e: [h e] *)
Definition try_except {A} (m : M A) (h : exn -> M A) : M A :=
  match m with
  | (t, inl e) => let '(t', r) := h e in ((t ++ t')%list, r)
  | (t, inr a) => (t, inr a)
  end.

Declare Scope py_scope.
Delimit Scope py_scope with py.
Notation "x <- m ;; k" := (bind m (fun x => k))
  (at level 61, m at next level, right associativity) : py_scope.
Notation "m ;; k" := (bind m (fun _ => k))
  (at level 61, right associativity) : py_scope.
Local Open Scope py_scope.

Definition events {A} (m : M A) : list event := fst m.
Definition outcome {A} (m : M A) : exn + A := snd m.

(** ** Request and result shapes *)

(** Modelled from the spec: the request classes of src/models/domain are
    not part of the sources at hand; section 6 gives their shape,
    { message: { toolCalls: [ { id, function: { name, arguments } } ] } },
    every leaf a string. *)
Record ToolFunction : Type := { name : string; arguments : string }.
Record ToolCall : Type := { id : string; function : ToolFunction }.
Record Message : Type := { toolCalls : list ToolCall }.
Record VapiRequest : Type := { message : Message }.

(** Modelled from the spec: ValidatedToolCall (src/models/domain/tool.py) is
    the generic wrapper of section 3, the matched call's identifier and its
    validated arguments. *)
Record ValidatedToolCall (T : Type) : Type :=
  { tool_call_id : string; args : T }.
Arguments Build_ValidatedToolCall {T}.
Arguments tool_call_id {T}.
Arguments args {T}.

(** ** The tool-call validator factory (lines 36-66) *)

Section Validator.

(** The schema type: what validated arguments are. *)
Variable T : Type.

(** [parse_json_args] of src/utils/helpers (line 14): from the raw
    arguments string to a structured value, or an exception. *)
Variable parse_json_args : string -> exn + json.

(** The constructor of [args_model] applied to keyword arguments, and the
    description of the callable that Python puts in front of a call error
    (its qualified name followed by a pair of parentheses). *)
Variable args_model : list (string * json) -> exn + T.
Variable args_model_descr : string.

(** [parse_json_args(raw)], observed. *)
Definition call_parse (raw : string) : M json :=
  tell (CallParse raw) ;;
  ([], parse_json_args raw).

(** Line 44, the call of [args_model] on the unpacked [args_dict]: the
    double-star unpacking needs a mapping and is a TypeError on anything
    else, before the constructor is entered. *)
Definition call_model (args_dict : json) : M T :=
  match args_dict with
  | JObject kwargs =>
      tell (CallModel kwargs) ;;
      ([], args_model kwargs)
  | v =>
      raise (OtherError "TypeError"
               (args_model_descr ++ " argument after ** must be a mapping, not "
                  ++ type_name v))
  end.

Section Closure.

Variable function_name : string.

(** Lines 41-53: the loop over the tool calls, with its early return,
    and the raise that follows the loop. *)
Fixpoint for_tool_calls (calls : list ToolCall) : M (ValidatedToolCall T) :=
  match calls with
  | tool_call :: rest =>
      if (name (function tool_call) =? function_name)%string then
        args_dict <- call_parse (arguments (function tool_call)) ;;
        validated_args <- call_model args_dict ;;
        ret {| tool_call_id := id tool_call; args := validated_args |}
      else for_tool_calls rest
  | [] =>
      raise (HTTPException 400
               ("Invalid Request: Expected '" ++ function_name
                  ++ "' function call"))
  end.

(** Lines 54-64: the three except clauses, tried in order.  None of them
    matches an exception that does not derive from [Exception]: it leaves
    the try statement as it came. *)
Definition handler (e : exn) : M (ValidatedToolCall T) :=
  match e with
  | HTTPException _ _ => raise e
  | ValidationError _ =>
      tell (LogError ("Validation error for " ++ function_name ++ ": "
                        ++ str e)) ;;
      raise (HTTPException 422
               ("Invalid arguments for " ++ function_name ++ ": " ++ str e))
  | OtherError _ _ =>
      tell (LogError ("Unexpected error validating " ++ function_name
                        ++ ": " ++ str e)) ;;
      raise (HTTPException 500 (str e))
  | BaseError _ _ => raise e
  end.

(** Lines 37-64. *)
Definition validate_dependency (request : VapiRequest)
  : M (ValidatedToolCall T) :=
  tell (LogInfo ("Validating tool call for function: " ++ function_name)) ;;
  try_except (for_tool_calls (toolCalls (message request))) handler.

End Closure.

(** Line 36 and line 66: the factory returns the closure. *)
Definition get_validated_tool_call (function_name : string)
  : VapiRequest -> M (ValidatedToolCall T) :=
  validate_dependency function_name.

End Validator.

Arguments call_model {T} args_model args_model_descr args_dict.
Arguments for_tool_calls {T} parse_json_args args_model args_model_descr
  function_name calls.
Arguments handler {T} function_name e.
Arguments validate_dependency {T} parse_json_args args_model args_model_descr
  function_name request.
Arguments get_validated_tool_call {T} parse_json_args args_model
  args_model_descr function_name _.

(** ** Vocabulary for the statements about the validator *)

Definition request_of (calls : list ToolCall) : VapiRequest :=
  {| message := {| toolCalls := calls |} |}.

Definition named (F : string) (tc : ToolCall) : bool :=
  (name (function tc) =? F)%string.

(** No tool call of [calls] has function name [F]. *)
Definition no_match (F : string) (calls : list ToolCall) : bool :=
  forallb (fun tc => negb (named F tc)) calls.

(** [tc] is the first tool call of [calls] named [F]. *)
Definition first_named (F : string) (calls : list ToolCall) (tc : ToolCall)
  : Prop :=
  exists pre post,
    calls = (pre ++ tc :: post)%list /\
    no_match F pre = true /\ name (function tc) = F.

(** The id and the arguments string of the first tool call named [F]. *)
Definition first_match (F : string) (calls : list ToolCall)
  : option (string * string) :=
  option_map (fun tc => (id tc, arguments (function tc)))
             (find (named F) calls).

(** Parsing then constructing, without the bookkeeping: what lines 43-44
    compute from a raw arguments string. *)
Definition decode {T} (parse_json_args : string -> exn + json)
    (args_model : list (string * json) -> exn + T) (args_model_descr : string)
    (raw : string) : exn + T :=
  match parse_json_args raw with
  | inl e => inl e
  | inr v => outcome (call_model args_model args_model_descr v)
  end.

(** The arguments the parser was called on, in order. *)
Fixpoint parse_calls (evs : list event) : list string :=
  match evs with
  | [] => []
  | CallParse raw :: evs' => raw :: parse_calls evs'
  | _ :: evs' => parse_calls evs'
  end.

(** The keyword arguments the schema constructor was called on, in order. *)
Fixpoint model_calls (evs : list event) : list (list (string * json)) :=
  match evs with
  | [] => []
  | CallModel kw :: evs' => kw :: model_calls evs'
  | _ :: evs' => model_calls evs'
  end.

(** ** The session provider (lines 20-25) *)

(** A session is known by its identity; the ORM behind it is out of scope. *)
Definition Session : Type := nat.

(** What happens to sessions, in order. *)
Inductive db_event : Type :=
| Opened (s : Session)
| Used (s : Session) (query : string)
| Closed (s : Session).

(** The session factory's state: the identity the next session gets. *)
Record world : Type := { next_session : nat }.

(** A stateful step: the events it emitted, its value, the new state. *)
Definition IO (A : Type) : Type := world -> (list db_event * A * world).

(** [SessionLocal()], line 21. *)
Definition SessionLocal : IO Session :=
  fun w => ([Opened (next_session w)], next_session w,
            {| next_session := S (next_session w) |}).

(** [db.close()], line 25. *)
Definition close (db : Session) : IO unit :=
  fun w => ([Closed db], tt, w).

(** Where an async generator is: not started, suspended at its yield with
    its local variables, or finished. *)
Inductive frame (L : Type) : Type :=
| Created
| AtYield (locals : L)
| Finished.
Arguments Created {L}.
Arguments AtYield {L}.
Arguments Finished {L}.

(** How a generator is resumed: [__anext__()] or [athrow(e)]. *)
Inductive resume : Type :=
| Next
| Throw (e : exn).

(** What a resumption gives the driver. *)
Inductive gen_result (Y : Type) : Type :=
| Yield (y : Y)
| StopAsyncIteration
| Raise (e : exn).
Arguments Yield {Y}.
Arguments StopAsyncIteration {Y}.
Arguments Raise {Y}.

(** The finally clause of lines 24-25, entered with [db] bound. *)
Definition finally_close {Y} (db : Session) (after : gen_result Y)
  : IO (frame Session * gen_result Y) :=
  fun w => let '(evs, _, w') := close db w in (evs, (Finished, after), w').

(** One resumption of [get_db].  Started, it opens the session and suspends
    at line 23 inside the try; resumed there, normally or with an exception
    thrown in, it leaves the try through the finally clause.  An exception
    thrown into a generator that has not started, or has finished, comes
    straight back. *)
Definition get_db (fr : frame Session) (r : resume)
  : IO (frame Session * gen_result Session) :=
  match fr, r with
  | Created, Next =>
      fun w => let '(evs, db, w') := SessionLocal w in
               (evs, (AtYield db, Yield db), w')
  | Created, Throw e => fun w => ([], (Finished, Raise e), w)
  | AtYield db, Next => finally_close db StopAsyncIteration
  | AtYield db, Throw e => finally_close db (Raise e)
  | Finished, Next => fun w => ([], (Finished, StopAsyncIteration), w)
  | Finished, Throw e => fun w => ([], (Finished, Raise e), w)
  end.

(** What the requestor does with the session while the generator is
    suspended: some queries, then a value or an error.  The session is the
    provider's; the requestor neither opens nor closes one. *)
Definition scope (A : Type) : Type := Session -> list string * (exn + A).

(** The requestor's scope around [get_db], as the framework drives a
    dependency with yield: resume once to obtain the session, run the
    scope, then resume again, with [athrow] when the scope failed. *)
Definition with_get_db {A} (body : scope A) : IO (exn + A) :=
  fun w =>
    let '(evs1, (fr, r), w1) := get_db Created Next w in
    match r with
    | Yield db =>
        let '(queries, out) := body db in
        let evs2 := map (Used db) queries in
        let '(evs3, (_, r'), w2) :=
          get_db fr (match out with inl e => Throw e | inr _ => Next end) w1 in
        let res :=
          match r', out with
          | StopAsyncIteration, inr a => inr a
          | Raise e, _ => inl e
          | StopAsyncIteration, inl _ =>
              inl (OtherError "RuntimeError"
                              "generator didn't stop after athrow()")
          | Yield _, _ =>
              inl (OtherError "RuntimeError" "generator didn't stop")
          end in
        ((evs1 ++ evs2 ++ evs3)%list, res, w2)
    | StopAsyncIteration =>
        (evs1, inl (OtherError "RuntimeError" "generator didn't yield"), w1)
    | Raise e => (evs1, inl e, w1)
    end.

Fixpoint count_opened (evs : list db_event) : nat :=
  match evs with
  | [] => 0
  | Opened _ :: evs' => S (count_opened evs')
  | _ :: evs' => count_opened evs'
  end.

Fixpoint count_closed (db : Session) (evs : list db_event) : nat :=
  match evs with
  | [] => 0
  | Closed s :: evs' =>
      if Nat.eqb s db then S (count_closed db evs') else count_closed db evs'
  | _ :: evs' => count_closed db evs'
  end.

(** Every close of any session, whichever it is. *)
Fixpoint count_closes (evs : list db_event) : nat :=
  match evs with
  | [] => 0
  | Closed _ :: evs' => S (count_closes evs')
  | _ :: evs' => count_closes evs'
  end.

(** ** The repository factories (lines 27-34) *)

(** Modelled from the spec: the repository classes of src/repositories are
    not part of the sources at hand; section 3 describes each as a thin
    object bound to exactly one session, no state beyond that binding. *)
Record TodoRepository : Type := { todo_db : Session }.
Record ReminderRepository : Type := { reminder_db : Session }.
Record CalendarEventRepository : Type := { calendar_event_db : Session }.

(** An async generator whose body is the single statement [yield make(db)]:
    no try around the yield, nothing after it. *)
Definition yield_once {R} (make : Session -> R) (db : Session)
    (fr : frame unit) (r : resume) : frame unit * gen_result R :=
  match fr, r with
  | Created, Next => (AtYield tt, Yield (make db))
  | AtYield _, Next => (Finished, StopAsyncIteration)
  | Finished, Next => (Finished, StopAsyncIteration)
  | _, Throw e => (Finished, Raise e)
  end.

Definition get_todo_repository (db : Session) :=
  yield_once Build_TodoRepository db.

Definition get_reminder_repository (db : Session) :=
  yield_once Build_ReminderRepository db.

Definition get_calendar_event_repository (db : Session) :=
  yield_once Build_CalendarEventRepository db.

(** ** Sample collaborators and requests

    A schema with one required string field, a parser that knows a few
    payloads, and the requests of the worked examples. *)

Definition dquote : string := String (ascii_of_nat 34) EmptyString.

(** The payload { "title": "buy milk" } as it arrives. *)
Definition task_json : string :=
  "{" ++ dquote ++ "title" ++ dquote ++ ": "
      ++ dquote ++ "buy milk" ++ dquote ++ "}".

(** The same shape with another title. *)
Definition other_task_json : string :=
  "{" ++ dquote ++ "title" ++ dquote ++ ": "
      ++ dquote ++ "walk dog" ++ dquote ++ "}".

Definition decode_error : exn :=
  OtherError "JSONDecodeError" "Expecting value: line 1 column 1 (char 0)".

(** A parser in the manner of json.loads, on the payloads used below. *)
Definition sample_parse (raw : string) : exn + json :=
  if (raw =? task_json)%string then
    inr (JObject [("title", JString "buy milk")])
  else if (raw =? other_task_json)%string then
    inr (JObject [("title", JString "walk dog")])
  else if (raw =? "{}")%string then inr (JObject [])
  else if (raw =? "[]")%string then inr (JArray [])
  else inl decode_error.

(** A parser that answers malformed input with a response of its own. *)
Definition strict_parse (raw : string) : exn + json :=
  match sample_parse raw with
  | inr v => inr v
  | inl _ => inl (HTTPException 400 "Malformed tool arguments")
  end.

Fixpoint lookup (key : string) (kw : list (string * json)) : option json :=
  match kw with
  | [] => None
  | (k, v) :: kw' => if (k =? key)%string then Some v else lookup key kw'
  end.

Record TaskArgs : Type := { title : string }.

(** The constructor of a schema that requires [title: str]. *)
Definition TaskArgs_model (kw : list (string * json)) : exn + TaskArgs :=
  match lookup "title" kw with
  | Some (JString s) => inr {| title := s |}
  | Some _ =>
      inl (ValidationError
             "1 validation error for TaskArgs: title: Input should be a valid string")
  | None =>
      inl (ValidationError
             "1 validation error for TaskArgs: title: Field required")
  end.

(** A schema whose validator looks the task up and answers 404 itself. *)
Definition KnownTaskArgs_model (kw : list (string * json)) : exn + TaskArgs :=
  match lookup "title" kw with
  | Some (JString s) =>
      if (s =? "buy milk")%string then inr {| title := s |}
      else inl (HTTPException 404 "Task not found")
  | _ =>
      inl (ValidationError
             "1 validation error for KnownTaskArgs: title: Field required")
  end.

Definition tool_call (i f a : string) : ToolCall :=
  {| id := i; function := {| name := f; arguments := a |} |}.

(** The request of the worked example: one call of create_task. *)
Definition request_one : VapiRequest :=
  request_of [tool_call "1" "create_task" task_json].

(** Two calls of create_task; only the second carries a title. *)
Definition request_second_valid : VapiRequest :=
  request_of [tool_call "1" "create_task" "{}";
              tool_call "2" "create_task" task_json].

(** Two calls of create_task behind a call of another function. *)
Definition request_two : VapiRequest :=
  request_of [tool_call "0" "list_tasks" "not json";
              tool_call "1" "create_task" task_json;
              tool_call "2" "create_task" other_task_json].

(** A call of create_task without its required field. *)
Definition request_empty_args : VapiRequest :=
  request_of [tool_call "1" "create_task" "{}"].

(** A call of create_task whose arguments are not JSON. *)
Definition request_malformed : VapiRequest :=
  request_of [tool_call "1" "create_task" "{title: buy milk"].

(** A call of create_task for a task the schema does not know. *)
Definition request_unknown_task : VapiRequest :=
  request_of [tool_call "1" "create_task" other_task_json].

(** ** Further vocabulary and samples *)

(** The logger calls among the events, in order. *)
Fixpoint log_lines (evs : list event) : list event :=
  match evs with
  | [] => []
  | LogInfo m :: evs' => LogInfo m :: log_lines evs'
  | LogError m :: evs' => LogError m :: log_lines evs'
  | _ :: evs' => log_lines evs'
  end.

(** Whether the double-star unpacking of line 44 accepts the value. *)
Definition is_mapping (v : json) : bool :=
  match v with JObject _ => true | _ => false end.

(** A parser in the manner of pydantic's JSON validation, which reports
    malformed input as a ValidationError. *)
Definition validating_parse (raw : string) : exn + json :=
  match sample_parse raw with
  | inr v => inr v
  | inl _ =>
      inl (ValidationError
             "1 validation error for dict: Invalid JSON: expected value at line 1 column 1")
  end.

(** A parser that is interrupted while it works on malformed input. *)
Definition interrupted_parse (raw : string) : exn + json :=
  match sample_parse raw with
  | inr v => inr v
  | inl _ => inl (BaseError "KeyboardInterrupt" EmptyString)
  end.

(** A call of create_task whose arguments are a JSON array. *)
Definition request_array_args : VapiRequest :=
  request_of [tool_call "1" "create_task" "[]"].

(** Requests served one after the other, each in its own invocation of
    [get_db]. *)
Fixpoint serve {A} (bodies : list (scope A)) : IO (list (exn + A)) :=
  match bodies with
  | [] => fun w => ([], [], w)
  | body :: bodies' =>
      fun w =>
        let '(evs1, res, w1) := with_get_db body w in
        let '(evs2, ress, w2) := serve bodies' w1 in
        ((evs1 ++ evs2)%list, res :: ress, w2)
  end.

(** [get_db] resumed again and again, in any way: the events of all the
    resumptions and the frame it ends in. *)
Fixpoint drive (fr : frame Session) (rs : list resume)
  : IO (frame Session) :=
  match rs with
  | [] => fun w => ([], fr, w)
  | r :: rs' =>
      fun w =>
        let '(evs1, (fr1, _), w1) := get_db fr r w in
        let '(evs2, fr2, w2) := drive fr1 rs' w1 in
        ((evs1 ++ evs2)%list, fr2, w2)
  end.

(** The sessions open after one event, given those open before it. *)
Definition track (ev : db_event) (open : list Session) : list Session :=
  match ev with
  | Opened s => s :: open
  | Used _ _ => open
  | Closed s => remove Nat.eq_dec s open
  end.

(** The sessions left open by a run of events. *)
Fixpoint still_open (evs : list db_event) (open : list Session)
  : list Session :=
  match evs with
  | [] => open
  | ev :: evs' => still_open evs' (track ev open)
  end.

(** The largest number of sessions open at once during a run of events. *)
Fixpoint peak_open (evs : list db_event) (open : list Session) : nat :=
  match evs with
  | [] => length open
  | ev :: evs' => Nat.max (length open) (peak_open evs' (track ev open))
  end.

(** The outcomes of the scopes when the sessions are numbered from [s]. *)
Fixpoint outcomes_from {A} (s : Session) (bodies : list (scope A))
  : list (exn + A) :=
  match bodies with
  | [] => []
  | body :: bodies' => snd (body s) :: outcomes_from (S s) bodies'
  end.

(** An endpoint that depends on a repository, which depends on [get_db]
    (the Depends of lines 27, 30 and 33): the session is obtained, then the
    repository from its factory, the endpoint runs, and the two generators
    are resumed in reverse order, with [athrow] when the endpoint failed. *)
Definition with_repository {R A}
    (factory : Session -> frame unit -> resume -> frame unit * gen_result R)
    (endpoint : R -> list string * (exn + A)) : IO (exn + A) :=
  with_get_db
    (fun db =>
       let '(fr, r) := factory db Created Next in
       match r with
       | Yield repo =>
           let '(queries, out) := endpoint repo in
           let '(_, r') :=
             factory db fr
               (match out with inl e => Throw e | inr _ => Next end) in
           (queries,
            match r', out with
            | StopAsyncIteration, inr a => inr a
            | Raise e, _ => inl e
            | StopAsyncIteration, inl _ =>
                inl (OtherError "RuntimeError"
                                "generator didn't stop after athrow()")
            | Yield _, _ =>
                inl (OtherError "RuntimeError" "generator didn't stop")
            end)
       | StopAsyncIteration =>
           ([], inl (OtherError "RuntimeError" "generator didn't yield"))
       | Raise e => ([], inl e)
       end).

(** * Properties of the validator *)

Section ValidatorFacts.

Variable T : Type.
Variable parse_json_args : string -> exn + json.
Variable args_model : list (string * json) -> exn + T.
Variable args_model_descr : string.

Local Abbreviation loop := (for_tool_calls parse_json_args args_model args_model_descr).
Local Abbreviation validator :=
  (get_validated_tool_call parse_json_args args_model args_model_descr).
Local Abbreviation construct := (call_model args_model args_model_descr).
Local Abbreviation decoded := (decode parse_json_args args_model args_model_descr).
Local Abbreviation handle := (@handler T).

Local Abbreviation bad_request F :=
  (HTTPException 400 ("Invalid Request: Expected '" ++ F ++ "' function call")).

(** *** The loop *)

Lemma named_true F tc : named F tc = true <-> name (function tc) = F.
Proof. unfold named. apply String.eqb_eq. Qed.

Lemma loop_cons_skip F tc rest :
  named F tc = false -> loop F (tc :: rest) = loop F rest.
Proof. unfold named. intros H. simpl. now rewrite H. Qed.

Lemma loop_cons_hit F tc rest :
  named F tc = true -> loop F (tc :: rest) = loop F [tc].
Proof. unfold named. intros H. simpl. now rewrite H. Qed.

(** Entries that do not match are passed over. *)
Lemma loop_skip F pre rest :
  no_match F pre = true -> loop F (pre ++ rest) = loop F rest.
Proof.
  induction pre as [|c pre IH]; intros H; [reflexivity|].
  simpl in H. apply andb_true_iff in H as [Hc Hpre].
  apply negb_true_iff in Hc.
  rewrite <- app_comm_cons, loop_cons_skip by assumption. auto.
Qed.

(** The loop returns from its first match: what follows is not visited. *)
Lemma loop_first F pre tc post :
  no_match F pre = true -> name (function tc) = F ->
  loop F (pre ++ tc :: post) = loop F [tc].
Proof.
  intros Hpre Htc. rewrite loop_skip by assumption.
  apply loop_cons_hit, named_true, Htc.
Qed.

Lemma loop_none F calls :
  no_match F calls = true -> loop F calls = raise (bad_request F).
Proof.
  intros H. rewrite <- (app_nil_r calls). now rewrite loop_skip.
Qed.

(** The loop is a search for the first match. *)
Lemma loop_find F calls :
  loop F calls =
  match find (named F) calls with
  | Some tc => loop F [tc]
  | None => raise (bad_request F)
  end.
Proof.
  induction calls as [|c calls IH]; [reflexivity|].
  cbn [find]. destruct (named F c) eqn:Hc.
  - now apply loop_cons_hit.
  - now rewrite loop_cons_skip.
Qed.

Lemma find_split F (calls : list ToolCall) tc :
  find (named F) calls = Some tc ->
  exists pre post, calls = (pre ++ tc :: post)%list /\
                   no_match F pre = true /\ name (function tc) = F.
Proof.
  induction calls as [|c calls IH]; [discriminate|].
  cbn [find]. destruct (named F c) eqn:Hc.
  - intros [= ->]. exists [], calls. repeat split. now apply named_true.
  - intros H. destruct (IH H) as (pre & post & -> & Hpre & Htc).
    exists (c :: pre), post. repeat split; auto.
    simpl. now rewrite Hc.
Qed.

Lemma find_none F (calls : list ToolCall) :
  find (named F) calls = None <-> no_match F calls = true.
Proof.
  induction calls as [|c calls IH]; [now split|].
  cbn [find no_match forallb]. fold (no_match F calls).
  destruct (named F c); simpl; [split; discriminate | exact IH].
Qed.

Lemma find_first F pre tc post :
  no_match F pre = true -> name (function tc) = F ->
  find (named F) (pre ++ tc :: post) = Some tc.
Proof.
  intros Hpre Htc. induction pre as [|c pre IH]; simpl.
  - apply named_true in Htc. now rewrite Htc.
  - simpl in Hpre. apply andb_true_iff in Hpre as [Hc Hpre].
    apply negb_true_iff in Hc. rewrite Hc. auto.
Qed.

(** *** One matching tool call *)

(** What the body of the if at lines 43-49 emits and gives. *)
Lemma loop_hit_events F tc :
  name (function tc) = F ->
  events (loop F [tc]) =
  CallParse (arguments (function tc)) ::
  match parse_json_args (arguments (function tc)) with
  | inr (JObject kw) => [CallModel kw]
  | _ => []
  end.
Proof.
  intros H. apply named_true in H. unfold named in H.
  cbn [for_tool_calls]. rewrite H. unfold call_parse, call_model.
  destruct (parse_json_args _) as [e|[]]; try reflexivity.
  cbn. now destruct (args_model _).
Qed.

Lemma loop_hit_outcome F tc :
  name (function tc) = F ->
  outcome (loop F [tc]) =
  match decoded (arguments (function tc)) with
  | inl e => inl e
  | inr a => inr {| tool_call_id := id tc; args := a |}
  end.
Proof.
  intros H. apply named_true in H. unfold named in H.
  cbn [for_tool_calls]. rewrite H. unfold decode, call_parse, call_model.
  destruct (parse_json_args _) as [e|[]]; try reflexivity.
  cbn. now destruct (args_model _).
Qed.

(** *** The handlers *)

Lemma validator_outcome F request :
  outcome (validator F request) =
  match outcome (loop F (toolCalls (message request))) with
  | inl e => outcome (handle F e)
  | inr v => inr v
  end.
Proof.
  unfold get_validated_tool_call, validate_dependency, try_except, outcome.
  destruct (loop F _) as [t [e|v]]; [|reflexivity].
  cbn. now destruct (handle F e).
Qed.

Lemma validator_events F request :
  events (validator F request) =
  (LogInfo ("Validating tool call for function: " ++ F)
   :: events (loop F (toolCalls (message request)))
   ++ match outcome (loop F (toolCalls (message request))) with
      | inl e => events (handle F e)
      | inr _ => []
      end)%list.
Proof.
  unfold get_validated_tool_call, validate_dependency, try_except,
    outcome, events.
  destruct (loop F _) as [t [e|v]]; cbn.
  - now destruct (handle F e).
  - now rewrite app_nil_r.
Qed.

(** The handlers log and re-classify; they call no collaborator. *)
Lemma handler_calls F e :
  parse_calls (events (handle F e)) = [] /\
  model_calls (events (handle F e)) = [].
Proof. now destruct e. Qed.

Lemma parse_calls_app a b :
  parse_calls (a ++ b) = (parse_calls a ++ parse_calls b)%list.
Proof.
  induction a as [|[] a IH]; simpl; auto. now rewrite IH.
Qed.

Lemma model_calls_app a b :
  model_calls (a ++ b) = (model_calls a ++ model_calls b)%list.
Proof.
  induction a as [|[] a IH]; simpl; auto. now rewrite IH.
Qed.

(** The validator's result is that of the one-entry request holding the
    first match. *)
Lemma validator_first F pre tc post :
  no_match F pre = true -> name (function tc) = F ->
  validator F (request_of (pre ++ tc :: post)) = validator F (request_of [tc]).
Proof.
  intros Hpre Htc.
  unfold get_validated_tool_call, validate_dependency. cbn [request_of message toolCalls].
  now rewrite loop_first.
Qed.

Lemma loop_first_match F calls :
  loop F calls =
  match first_match F calls with
  | Some (i, raw) => loop F [tool_call i F raw]
  | None => raise (bad_request F)
  end.
Proof.
  rewrite loop_find. unfold first_match.
  destruct (find (named F) calls) as [tc|] eqn:Hfind; [|reflexivity].
  apply find_split in Hfind as (_ & _ & _ & _ & Htc).
  destruct tc as [i [n a]]. cbn in Htc |- *. now subst n.
Qed.

(** The search rule in one equation, for any target name. *)
Lemma validator_find F request :
  outcome (validator F request) =
  match find (named F) (toolCalls (message request)) with
  | Some tc =>
      match decoded (arguments (function tc)) with
      | inr a => inr {| tool_call_id := id tc; args := a |}
      | inl e => outcome (handle F e)
      end
  | None => inl (bad_request F)
  end.
Proof.
  rewrite validator_outcome, loop_find.
  destruct (find (named F) _) as [tc|] eqn:Hfind; [|reflexivity].
  apply find_split in Hfind as (_ & _ & _ & _ & Htc).
  rewrite (loop_hit_outcome F tc Htc). now destruct (decoded _).
Qed.

(** Arguments that parse to anything but an object never reach the schema
    constructor: the unpacking fails and the catch-all answers 500. *)
Lemma non_mapping_internal_error F pre tc post v :
  no_match F pre = true ->
  name (function tc) = F ->
  parse_json_args (arguments (function tc)) = inr v ->
  (forall kw, v <> JObject kw) ->
  outcome (validator F (request_of (pre ++ tc :: post))) =
  inl (HTTPException 500
         (args_model_descr ++ " argument after ** must be a mapping, not "
            ++ type_name v)).
Proof.
  intros Hpre Htc Hparse Hv.
  rewrite validator_first, validator_outcome by assumption.
  cbn [request_of message toolCalls].
  rewrite (loop_hit_outcome F tc Htc). unfold decode. rewrite Hparse.
  destruct v; try reflexivity. now elim (Hv members).
Qed.

(** With collaborators that raise no HTTPException of their own and
    nothing outside Exception, a failure of the validator has one of the
    three statuses. *)
Lemma validator_three_statuses F request :
  (forall raw e, decoded raw = inl e ->
                 is_HTTPException e = false /\ is_Exception e = true) ->
  match outcome (validator F request) with
  | inr _ => True
  | inl (HTTPException s _) => s = 400 \/ s = 422 \/ s = 500
  | inl _ => False
  end.
Proof.
  intros Hcollab. rewrite validator_find.
  destruct (find (named F) _) as [tc|]; [|cbn; auto].
  destruct (decoded (arguments (function tc))) as [[s d|m|c m|c m]|a] eqn:Hdec;
    cbn; auto; apply Hcollab in Hdec as [Hh He]; discriminate.
Qed.

(** *** The claims *)

(** C1, amended.  When the first tool call named F of a request has
    arguments that the parser accepts and the schema constructor accepts,
    the validator for F returns a ValidatedToolCall with that tool call's id
    and the validated arguments. *)
Theorem first_valid_tool_call_returned F pre tc post v a :
  no_match F pre = true ->
  name (function tc) = F ->
  parse_json_args (arguments (function tc)) = inr v ->
  outcome (construct v) = inr a ->
  outcome (validator F (request_of (pre ++ tc :: post))) =
  inr {| tool_call_id := id tc; args := a |}.
Proof.
  intros Hpre Htc Hparse Hmodel.
  rewrite validator_first, validator_outcome by assumption.
  cbn [request_of message toolCalls].
  rewrite (loop_hit_outcome F tc Htc). unfold decode.
  now rewrite Hparse, Hmodel.
Qed.

(** C2.  In a request with several tool calls named F the validator for F
    works on the first one in sequence order.  Its id and its arguments
    determine the result: the ValidatedToolCall holds that id and what
    parsing and construction make of those arguments, and a failure is what
    the except clauses make of their error.  Later tool calls play no part:
    the whole behaviour is that on the request holding the first one alone,
    the parser is called once, on its arguments, and the schema constructor
    at most once, on what the parser made of them. *)
Theorem first_match_wins F pre tc post :
  no_match F pre = true ->
  name (function tc) = F ->
  outcome (validator F (request_of (pre ++ tc :: post))) =
  match decoded (arguments (function tc)) with
  | inr a => inr {| tool_call_id := id tc; args := a |}
  | inl (HTTPException s d) => inl (HTTPException s d)
  | inl (ValidationError m) =>
      inl (HTTPException 422 ("Invalid arguments for " ++ F ++ ": " ++ m))
  | inl (OtherError _ m) => inl (HTTPException 500 m)
  | inl (BaseError c m) => inl (BaseError c m)
  end
  /\ validator F (request_of (pre ++ tc :: post))
     = validator F (request_of [tc])
  /\ parse_calls (events (validator F (request_of (pre ++ tc :: post)))) =
     [arguments (function tc)]
  /\ model_calls (events (validator F (request_of (pre ++ tc :: post)))) =
     match parse_json_args (arguments (function tc)) with
     | inr (JObject kw) => [kw]
     | _ => []
     end.
Proof.
  intros Hpre Htc. split.
  { rewrite validator_first, validator_outcome by assumption.
    cbn [request_of message toolCalls].
    rewrite (loop_hit_outcome F tc Htc).
    now destruct (decoded _) as [[]|]. }
  split; [now apply validator_first|].
  rewrite validator_first, validator_events by assumption.
  cbn [request_of message toolCalls parse_calls model_calls].
  rewrite parse_calls_app, model_calls_app, (loop_hit_events F tc Htc).
  assert (Hh : forall e, parse_calls (events (handle F e)) = []
                      /\ model_calls (events (handle F e)) = [])
    by apply handler_calls.
  split.
  - destruct (outcome (loop F [tc])) as [e|]; [rewrite (proj1 (Hh e))|];
      now destruct (parse_json_args _) as [|[]].
  - destruct (outcome (loop F [tc])) as [e|]; [rewrite (proj2 (Hh e))|];
      now destruct (parse_json_args _) as [|[]].
Qed.

(** C3.  When no tool call of the request is named F, the empty sequence
    included, the validator for F fails with the HTTPException of status 400
    whose detail names F; the error leaves through the first except clause
    as it is, so nothing is logged past the opening line and no collaborator
    is called. *)
Theorem no_match_bad_request F request :
  no_match F (toolCalls (message request)) = true ->
  outcome (validator F request) =
  inl (HTTPException 400
         ("Invalid Request: Expected '" ++ F ++ "' function call"))
  /\ events (validator F request) =
     [LogInfo ("Validating tool call for function: " ++ F)].
Proof.
  intros H. rewrite validator_outcome, validator_events, (loop_none F _ H).
  now split.
Qed.

(** C4, amended.  When the first tool call named F has arguments that
    parse to an object and the schema constructor rejects that object with a
    ValidationError, the validator for F fails with the HTTPException of
    status 422 whose detail holds F and the text of the ValidationError. *)
Theorem validation_failure_unprocessable F pre tc post kw m :
  no_match F pre = true ->
  name (function tc) = F ->
  parse_json_args (arguments (function tc)) = inr (JObject kw) ->
  args_model kw = inl (ValidationError m) ->
  outcome (validator F (request_of (pre ++ tc :: post))) =
  inl (HTTPException 422 ("Invalid arguments for " ++ F ++ ": " ++ m)).
Proof.
  intros Hpre Htc Hparse Hmodel.
  rewrite validator_first, validator_outcome by assumption.
  cbn [request_of message toolCalls].
  rewrite (loop_hit_outcome F tc Htc). unfold decode, call_model.
  rewrite Hparse. cbn. now rewrite Hmodel.
Qed.

(** C5, amended.  When the parser fails on the arguments of the first tool
    call named F with an error that is neither a ValidationError nor an
    HTTPException, the validator for F fails with the HTTPException of
    status 500 whose detail is the text of that error.  An error is an
    exception that derives from Exception; what the parser raises outside
    Exception is caught by no clause and leaves the validator as it is. *)
Theorem parse_failure_internal_error F pre tc post e :
  no_match F pre = true ->
  name (function tc) = F ->
  parse_json_args (arguments (function tc)) = inl e ->
  is_ValidationError e = false ->
  is_HTTPException e = false ->
  outcome (validator F (request_of (pre ++ tc :: post))) =
  inl (if is_Exception e then HTTPException 500 (str e) else e).
Proof.
  intros Hpre Htc Hparse Hv Hh.
  rewrite validator_first, validator_outcome by assumption.
  cbn [request_of message toolCalls].
  rewrite (loop_hit_outcome F tc Htc). unfold decode. rewrite Hparse.
  now destruct e.
Qed.

(** C6, amended.  For every request the validator for F either returns a
    ValidatedToolCall, made from the first tool call named F once parsing
    and construction both succeeded, or fails.  It fails with an
    HTTPException that carries a detail: of status 400 when no tool call is
    named F; of status 422 when parsing or construction raised a
    ValidationError; of status 500 when they raised any other error that
    derives from Exception and is not an HTTPException; and, when they
    raised an HTTPException, with that very exception and its own status.
    The one other way out is an exception that parsing or construction
    raised and that does not derive from Exception (KeyboardInterrupt,
    SystemExit, CancelledError): no clause catches it and it leaves as it
    is.  No error is lost, and neither a ValidationError nor any other
    subclass of Exception but HTTPException leaves the validator. *)
Theorem validator_outcomes F request :
  match outcome (validator F request) with
  | inr v =>
      exists tc, first_named F (toolCalls (message request)) tc /\
                 tool_call_id v = id tc /\
                 decoded (arguments (function tc)) = inr (args v)
  | inl (HTTPException s d) =>
      (s = 400 /\ no_match F (toolCalls (message request)) = true /\
       d = "Invalid Request: Expected '" ++ F ++ "' function call")
      \/
      (exists tc, first_named F (toolCalls (message request)) tc /\
         ((s = 422 /\ exists m,
              decoded (arguments (function tc)) = inl (ValidationError m) /\
              d = "Invalid arguments for " ++ F ++ ": " ++ m)
          \/ (s = 500 /\ exists c m,
              decoded (arguments (function tc)) = inl (OtherError c m) /\
              d = m)
          \/ decoded (arguments (function tc)) = inl (HTTPException s d)))
  | inl (BaseError c m) =>
      exists tc, first_named F (toolCalls (message request)) tc /\
                 decoded (arguments (function tc)) = inl (BaseError c m)
  | inl (ValidationError _) | inl (OtherError _ _) => False
  end.
Proof.
  rewrite validator_find.
  destruct (find (named F) _) as [tc|] eqn:Hfind.
  - apply find_split in Hfind as (pre & post & Hcalls & Hpre & Htc).
    assert (Hfirst : first_named F (toolCalls (message request)) tc)
      by (exists pre, post; auto).
    destruct (decoded (arguments (function tc)))
      as [[s d|m|c m|c m]|a] eqn:Hdec; cbn.
    + right. exists tc. auto.
    + right. exists tc. split; [assumption|]. left. split; [reflexivity|].
      now exists m.
    + right. exists tc. split; [assumption|]. right. left.
      split; [reflexivity|]. now exists c, m.
    + exists tc. auto.
    + exists tc. auto.
  - apply find_none in Hfind. left. auto.
Qed.

(** C9.  Two requests whose first tool call named F has the same id and the
    same arguments string, or that both have no such tool call, get the same
    behaviour from the validator for F, events and outcome alike.  The
    parser is called on the arguments of that first tool call and on nothing
    else, and the schema constructor on what the parser made of them and on
    nothing else. *)
Theorem validator_depends_on_first_match F r1 r2 :
  first_match F (toolCalls (message r1)) =
  first_match F (toolCalls (message r2)) ->
  validator F r1 = validator F r2
  /\ parse_calls (events (validator F r1)) =
     match first_match F (toolCalls (message r1)) with
     | Some (_, raw) => [raw]
     | None => []
     end
  /\ model_calls (events (validator F r1)) =
     match first_match F (toolCalls (message r1)) with
     | Some (_, raw) =>
         match parse_json_args raw with
         | inr (JObject kw) => [kw]
         | _ => []
         end
     | None => []
     end.
Proof.
  intros Hagree. split.
  - unfold get_validated_tool_call, validate_dependency.
    now rewrite (loop_first_match F (toolCalls (message r1))),
      (loop_first_match F (toolCalls (message r2))), Hagree.
  - rewrite validator_events. cbn [parse_calls model_calls].
    rewrite parse_calls_app, model_calls_app.
    assert (Hh : forall e, parse_calls (events (handle F e)) = []
                        /\ model_calls (events (handle F e)) = [])
      by apply handler_calls.
    assert (Htail :
      parse_calls (match outcome (loop F (toolCalls (message r1))) with
                   | inl e => events (handle F e) | inr _ => [] end) = []
      /\ model_calls (match outcome (loop F (toolCalls (message r1))) with
                      | inl e => events (handle F e) | inr _ => [] end) = []).
    { destruct (outcome (loop F _)) as [e|]; [apply Hh | now split]. }
    destruct Htail as [-> ->]. rewrite !app_nil_r.
    rewrite loop_first_match.
    destruct (first_match F _) as [[i raw]|]; [|now split].
    rewrite (loop_hit_events F (tool_call i F raw) eq_refl).
    cbn [tool_call function arguments parse_calls model_calls].
    now destruct (parse_json_args raw) as [|[]].
Qed.

(** C10.  The factory accepts the empty string as function name, and the
    validator it returns follows the first-match rule like any other: it
    works on the first tool call whose function name is the empty string,
    and fails with status 400 when there is none. *)
Theorem empty_function_name_first_match request :
  outcome (validator EmptyString request) =
  match find (fun tc => (name (function tc) =? EmptyString)%string)
             (toolCalls (message request)) with
  | Some tc =>
      match decoded (arguments (function tc)) with
      | inr a => inr {| tool_call_id := id tc; args := a |}
      | inl e => outcome (handle EmptyString e)
      end
  | None =>
      inl (HTTPException 400 "Invalid Request: Expected '' function call")
  end.
Proof. apply (validator_find EmptyString). Qed.

(** *** Further properties of the validator *)

Lemma log_lines_app a b :
  log_lines (a ++ b) = (log_lines a ++ log_lines b)%list.
Proof.
  induction a as [|[] a IH]; simpl; congruence.
Qed.

(** The loop itself logs nothing. *)
Lemma loop_log_lines F calls : log_lines (events (loop F calls)) = [].
Proof.
  rewrite loop_find. destruct (find (named F) calls) as [tc|] eqn:Hfind;
    [|reflexivity].
  apply find_split in Hfind as (_ & _ & _ & _ & Htc).
  rewrite (loop_hit_events F tc Htc).
  now destruct (parse_json_args _) as [|[]].
Qed.

Lemma loop_filter F calls : loop F (filter (named F) calls) = loop F calls.
Proof.
  induction calls as [|c calls IH]; [reflexivity|].
  cbn [filter]. destruct (named F c) eqn:Hc.
  - now rewrite (loop_cons_hit F c (filter (named F) calls) Hc),
      (loop_cons_hit F c calls Hc).
  - now rewrite loop_cons_skip.
Qed.

Lemma loop_app F a b :
  loop F (a ++ b) = if no_match F a then loop F b else loop F a.
Proof.
  destruct (no_match F a) eqn:Ha; [now apply loop_skip|].
  destruct (find (named F) a) as [tc|] eqn:Hfind.
  - apply find_split in Hfind as (pre & post & -> & Hpre & Htc).
    rewrite <- app_assoc, <- app_comm_cons.
    now rewrite (loop_first F pre tc (post ++ b) Hpre Htc),
      (loop_first F pre tc post Hpre Htc).
  - apply find_none in Hfind. congruence.
Qed.

(** The logging of lines 38, 57 and 63.  Every call of the validator logs
    its opening line; an error line follows exactly when a ValidationError
    or another error that is not an HTTPException is re-classified.  A
    success, a missing tool call and an HTTPException passed through log no
    error; no log line holds anything of the request but that error text. *)
Theorem validator_log_lines F request :
  log_lines (events (validator F request)) =
  LogInfo ("Validating tool call for function: " ++ F) ::
  match find (named F) (toolCalls (message request)) with
  | Some tc =>
      match decoded (arguments (function tc)) with
      | inl (ValidationError m) =>
          [LogError ("Validation error for " ++ F ++ ": " ++ m)]
      | inl (OtherError _ m) =>
          [LogError ("Unexpected error validating " ++ F ++ ": " ++ m)]
      | _ => []
      end
  | None => []
  end.
Proof.
  rewrite validator_events. cbn [log_lines]. f_equal.
  rewrite log_lines_app, loop_log_lines, loop_find. cbn [app].
  destruct (find (named F) _) as [tc|] eqn:Hfind; [|reflexivity].
  apply find_split in Hfind as (_ & _ & _ & _ & Htc).
  rewrite (loop_hit_outcome F tc Htc).
  now destruct (decoded _) as [[]|].
Qed.

(** Arguments that parse to anything but an object (a list, a number, a
    string, null) never reach the schema constructor: the unpacking of line
    44 fails with a TypeError, and the answer is 500 with that text, not
    422. *)
Theorem non_object_arguments_internal_error F pre tc post v :
  no_match F pre = true ->
  name (function tc) = F ->
  parse_json_args (arguments (function tc)) = inr v ->
  is_mapping v = false ->
  outcome (validator F (request_of (pre ++ tc :: post))) =
  inl (HTTPException 500
         (args_model_descr ++ " argument after ** must be a mapping, not "
            ++ type_name v))
  /\ model_calls (events (validator F (request_of (pre ++ tc :: post)))) = [].
Proof.
  intros Hpre Htc Hparse Hv.
  rewrite validator_first by assumption. split.
  - rewrite validator_outcome. cbn [request_of message toolCalls].
    rewrite (loop_hit_outcome F tc Htc). unfold decode. rewrite Hparse.
    now destruct v.
  - rewrite validator_events. cbn [request_of message toolCalls model_calls].
    rewrite model_calls_app, (loop_hit_events F tc Htc), Hparse.
    destruct v; try discriminate;
      (destruct (outcome (loop F [tc])) as [e|];
       [now rewrite (proj2 (handler_calls F e)) | reflexivity]).
Qed.

(** The except clauses look at the class of the error, not at where it was
    raised: a ValidationError that comes from the parser is answered with
    422 like one from the schema constructor, and the constructor is not
    called. *)
Theorem parser_validation_error_unprocessable F pre tc post m :
  no_match F pre = true ->
  name (function tc) = F ->
  parse_json_args (arguments (function tc)) = inl (ValidationError m) ->
  outcome (validator F (request_of (pre ++ tc :: post))) =
  inl (HTTPException 422 ("Invalid arguments for " ++ F ++ ": " ++ m))
  /\ model_calls (events (validator F (request_of (pre ++ tc :: post)))) = [].
Proof.
  intros Hpre Htc Hparse.
  rewrite validator_first by assumption. split.
  - rewrite validator_outcome. cbn [request_of message toolCalls].
    rewrite (loop_hit_outcome F tc Htc). unfold decode. now rewrite Hparse.
  - rewrite validator_events. cbn [request_of message toolCalls model_calls].
    rewrite model_calls_app, (loop_hit_events F tc Htc), Hparse.
    destruct (outcome (loop F [tc])) as [e|];
      [now rewrite (proj2 (handler_calls F e)) | reflexivity].
Qed.

(** The validator for F sees a request through its tool calls named F:
    dropping every tool call of another name changes neither its events nor
    its outcome. *)
Theorem validator_restrict F request :
  validator F (request_of (filter (named F) (toolCalls (message request))))
  = validator F request.
Proof.
  unfold get_validated_tool_call, validate_dependency.
  cbn [request_of message toolCalls]. now rewrite loop_filter.
Qed.

(** Two tool-call sequences put end to end: the validator for F answers
    for the first when it holds a tool call named F, and for the second
    otherwise. *)
Theorem validator_app F a b :
  validator F (request_of (a ++ b)) =
  if no_match F a then validator F (request_of b)
  else validator F (request_of a).
Proof.
  unfold get_validated_tool_call, validate_dependency.
  cbn [request_of message toolCalls]. rewrite loop_app.
  now destruct (no_match F a).
Qed.

(** No second try: when parsing or construction fails on the first tool
    call named F, the validator fails, with the same exception whatever
    tool calls follow, a later one named F with good arguments included:
    the HTTPException the except clauses make of an error that derives from
    Exception, and the exception itself when it does not. *)
Theorem first_failure_is_final F pre tc post e :
  no_match F pre = true ->
  name (function tc) = F ->
  decoded (arguments (function tc)) = inl e ->
  exists e',
    outcome (handle F e) = inl e' /\
    outcome (validator F (request_of (pre ++ tc :: post))) = inl e' /\
    (if is_Exception e then exists s d, e' = HTTPException s d else e' = e).
Proof.
  intros Hpre Htc Hdec.
  rewrite validator_first, validator_outcome by assumption.
  cbn [request_of message toolCalls].
  rewrite (loop_hit_outcome F tc Htc), Hdec.
  destruct e as [s d|m|c m|c m]; cbn; eauto 6.
Qed.

End ValidatorFacts.

(** *** The claims on the worked examples *)

(** C1 on the request with two create_task calls behind a list_tasks call:
    the first create_task call, id 1, is returned. *)
Lemma first_valid_tool_call_returned_witness :
  no_match "create_task" [tool_call "0" "list_tasks" "not json"] = true /\
  name (function (tool_call "1" "create_task" task_json)) = "create_task" /\
  sample_parse (arguments (function (tool_call "1" "create_task" task_json)))
  = inr (JObject [("title", JString "buy milk")]) /\
  outcome (call_model TaskArgs_model "TaskArgs()"
             (JObject [("title", JString "buy milk")]))
  = inr {| title := "buy milk" |} /\
  outcome (get_validated_tool_call sample_parse TaskArgs_model "TaskArgs()"
             "create_task" request_two)
  = inr {| tool_call_id := "1"; args := {| title := "buy milk" |} |}.
Proof.
  refine (conj eq_refl (conj eq_refl (conj eq_refl (conj eq_refl _)))).
  apply (first_valid_tool_call_returned TaskArgs sample_parse TaskArgs_model
           "TaskArgs()" "create_task"
           [tool_call "0" "list_tasks" "not json"]
           (tool_call "1" "create_task" task_json)
           [tool_call "2" "create_task" other_task_json]
           (JObject [("title", JString "buy milk")])
           {| title := "buy milk" |}); reflexivity.
Defined.

(** C1 as first written fails: the second create_task call of the request
    has arguments that parse and validate, yet the validator answers for
    the first one, whose arguments lack the title, and fails with 422. *)
Lemma later_valid_tool_call_not_returned :
  In (tool_call "2" "create_task" task_json)
     (toolCalls (message request_second_valid)) /\
  name (function (tool_call "2" "create_task" task_json)) = "create_task" /\
  sample_parse (arguments (function (tool_call "2" "create_task" task_json)))
  = inr (JObject [("title", JString "buy milk")]) /\
  outcome (call_model TaskArgs_model "TaskArgs()"
             (JObject [("title", JString "buy milk")]))
  = inr {| title := "buy milk" |} /\
  outcome (get_validated_tool_call sample_parse TaskArgs_model "TaskArgs()"
             "create_task" request_second_valid)
  = inl (HTTPException 422
           "Invalid arguments for create_task: 1 validation error for TaskArgs: title: Field required") /\
  outcome (get_validated_tool_call sample_parse TaskArgs_model "TaskArgs()"
             "create_task" request_second_valid)
  <> inr {| tool_call_id := "2"; args := {| title := "buy milk" |} |}.
Proof.
  repeat split; try reflexivity.
  - right. now left.
  - discriminate.
Qed.

(** C2 on the same request: the second create_task call, id 2, plays no
    part. *)
Lemma first_match_wins_witness :
  no_match "create_task" [tool_call "0" "list_tasks" "not json"] = true /\
  name (function (tool_call "1" "create_task" task_json)) = "create_task" /\
  outcome (get_validated_tool_call sample_parse TaskArgs_model "TaskArgs()"
             "create_task" request_two)
  = inr {| tool_call_id := "1"; args := {| title := "buy milk" |} |} /\
  get_validated_tool_call sample_parse TaskArgs_model "TaskArgs()"
    "create_task" request_two
  = get_validated_tool_call sample_parse TaskArgs_model "TaskArgs()"
      "create_task" request_one /\
  parse_calls (events (get_validated_tool_call sample_parse TaskArgs_model
                         "TaskArgs()" "create_task" request_two))
  = [task_json].
Proof.
  pose proof (first_match_wins TaskArgs sample_parse TaskArgs_model
                "TaskArgs()" "create_task"
                [tool_call "0" "list_tasks" "not json"]
                (tool_call "1" "create_task" task_json)
                [tool_call "2" "create_task" other_task_json]
                eq_refl eq_refl) as (Hout & Hsame & Hparse & _).
  refine (conj eq_refl (conj eq_refl (conj Hout (conj Hsame Hparse)))).
Defined.

(** C3 on the worked example: delete_task is asked for, create_task is all
    the request holds. *)
Lemma no_match_bad_request_witness :
  no_match "delete_task" (toolCalls (message request_one)) = true /\
  outcome (get_validated_tool_call sample_parse TaskArgs_model "TaskArgs()"
             "delete_task" request_one)
  = inl (HTTPException 400
           "Invalid Request: Expected 'delete_task' function call").
Proof.
  split; [reflexivity|].
  apply (no_match_bad_request TaskArgs sample_parse TaskArgs_model
           "TaskArgs()" "delete_task" request_one eq_refl).
Defined.

(** C4 on the worked example: the arguments are the empty object. *)
Lemma validation_failure_unprocessable_witness :
  no_match "create_task" [] = true /\
  name (function (tool_call "1" "create_task" "{}")) = "create_task" /\
  sample_parse (arguments (function (tool_call "1" "create_task" "{}")))
  = inr (JObject []) /\
  TaskArgs_model []
  = inl (ValidationError
           "1 validation error for TaskArgs: title: Field required") /\
  outcome (get_validated_tool_call sample_parse TaskArgs_model "TaskArgs()"
             "create_task" request_empty_args)
  = inl (HTTPException 422
           "Invalid arguments for create_task: 1 validation error for TaskArgs: title: Field required").
Proof.
  refine (conj eq_refl (conj eq_refl (conj eq_refl (conj eq_refl _)))).
  apply (validation_failure_unprocessable TaskArgs sample_parse TaskArgs_model
           "TaskArgs()" "create_task" []
           (tool_call "1" "create_task" "{}") [] []
           "1 validation error for TaskArgs: title: Field required");
    reflexivity.
Defined.

(** C4 as first written fails: the arguments [] parse as JSON and are no
    TaskArgs, yet the schema constructor is never entered; the unpacking
    raises a TypeError and the validator answers 500, not 422. *)
Lemma array_arguments_not_unprocessable :
  name (function (tool_call "1" "create_task" "[]")) = "create_task" /\
  sample_parse (arguments (function (tool_call "1" "create_task" "[]")))
  = inr (JArray []) /\
  outcome (call_model TaskArgs_model "TaskArgs()" (JArray []))
  = inl (OtherError "TypeError"
           "TaskArgs() argument after ** must be a mapping, not list") /\
  outcome (get_validated_tool_call sample_parse TaskArgs_model "TaskArgs()"
             "create_task" request_array_args)
  = inl (HTTPException 500
           "TaskArgs() argument after ** must be a mapping, not list") /\
  500 <> 422.
Proof.
  repeat split; try reflexivity. discriminate.
Qed.

(** C5 on arguments that are not JSON, with the parser that fails the way
    json.loads does. *)
Lemma parse_failure_internal_error_witness :
  no_match "create_task" [] = true /\
  name (function (tool_call "1" "create_task" "{title: buy milk"))
  = "create_task" /\
  sample_parse
    (arguments (function (tool_call "1" "create_task" "{title: buy milk")))
  = inl decode_error /\
  is_ValidationError decode_error = false /\
  is_HTTPException decode_error = false /\
  outcome (get_validated_tool_call sample_parse TaskArgs_model "TaskArgs()"
             "create_task" request_malformed)
  = inl (HTTPException 500 "Expecting value: line 1 column 1 (char 0)").
Proof.
  refine (conj eq_refl (conj eq_refl (conj eq_refl
            (conj eq_refl (conj eq_refl _))))).
  apply (parse_failure_internal_error TaskArgs sample_parse TaskArgs_model
           "TaskArgs()" "create_task" []
           (tool_call "1" "create_task" "{title: buy milk") []
           decode_error); reflexivity.
Defined.

(** C5 as first written fails: a parser that answers malformed input with
    an HTTPException of its own fails with an error that is not a
    ValidationError, and the validator lets it through as it is, status 400
    and not 500. *)
Lemma parse_failure_http_passes_through :
  name (function (tool_call "1" "create_task" "{title: buy milk"))
  = "create_task" /\
  strict_parse
    (arguments (function (tool_call "1" "create_task" "{title: buy milk")))
  = inl (HTTPException 400 "Malformed tool arguments") /\
  is_ValidationError (HTTPException 400 "Malformed tool arguments") = false /\
  outcome (get_validated_tool_call strict_parse TaskArgs_model "TaskArgs()"
             "create_task" request_malformed)
  = inl (HTTPException 400 "Malformed tool arguments") /\
  outcome (get_validated_tool_call strict_parse TaskArgs_model "TaskArgs()"
             "create_task" request_malformed)
  <> inl (HTTPException 500
            (str (HTTPException 400 "Malformed tool arguments"))).
Proof.
  repeat split; try reflexivity. discriminate.
Qed.

(** C6 as first written fails: a schema whose validator raises an
    HTTPException of status 404 makes the validator fail with 404, which is
    none of 400, 422 and 500. *)
Lemma collaborator_status_escapes :
  outcome (get_validated_tool_call sample_parse KnownTaskArgs_model
             "KnownTaskArgs()" "create_task" request_unknown_task)
  = inl (HTTPException 404 "Task not found") /\
  404 <> 400 /\ 404 <> 422 /\ 404 <> 500.
Proof.
  repeat split; try reflexivity; discriminate.
Qed.

(** An exception outside Exception raised by the parser leaves the
    validator as it is, with no error line logged. *)
Lemma interrupt_leaves_unchanged :
  outcome (get_validated_tool_call interrupted_parse TaskArgs_model
             "TaskArgs()" "create_task" request_malformed)
  = inl (BaseError "KeyboardInterrupt" EmptyString) /\
  log_lines (events (get_validated_tool_call interrupted_parse TaskArgs_model
                       "TaskArgs()" "create_task" request_malformed))
  = [LogInfo "Validating tool call for function: create_task"].
Proof. split; reflexivity. Qed.

(** C9 on two requests that differ everywhere but in their first
    create_task call. *)
Lemma validator_depends_on_first_match_witness :
  first_match "create_task" (toolCalls (message request_two))
  = first_match "create_task" (toolCalls (message request_one)) /\
  get_validated_tool_call sample_parse TaskArgs_model "TaskArgs()"
    "create_task" request_two
  = get_validated_tool_call sample_parse TaskArgs_model "TaskArgs()"
      "create_task" request_one /\
  parse_calls (events (get_validated_tool_call sample_parse TaskArgs_model
                         "TaskArgs()" "create_task" request_two))
  = [task_json].
Proof.
  pose proof (validator_depends_on_first_match TaskArgs sample_parse
                TaskArgs_model "TaskArgs()" "create_task"
                request_two request_one eq_refl) as (Hsame & Hparse & _).
  refine (conj eq_refl (conj Hsame Hparse)).
Defined.

(** *** The further properties on the worked examples *)

(** Arguments that are a JSON array: 500 with the TypeError of the
    unpacking. *)
Lemma non_object_arguments_internal_error_witness :
  no_match "create_task" [] = true /\
  name (function (tool_call "1" "create_task" "[]")) = "create_task" /\
  sample_parse (arguments (function (tool_call "1" "create_task" "[]")))
  = inr (JArray []) /\
  is_mapping (JArray []) = false /\
  outcome (get_validated_tool_call sample_parse TaskArgs_model "TaskArgs()"
             "create_task" request_array_args)
  = inl (HTTPException 500
           "TaskArgs() argument after ** must be a mapping, not list").
Proof.
  refine (conj eq_refl (conj eq_refl (conj eq_refl (conj eq_refl _)))).
  apply (non_object_arguments_internal_error TaskArgs sample_parse
           TaskArgs_model "TaskArgs()" "create_task" []
           (tool_call "1" "create_task" "[]") [] (JArray [])
           eq_refl eq_refl eq_refl eq_refl).
Defined.

(** Malformed arguments under a parser that reports them as a
    ValidationError: 422. *)
Lemma parser_validation_error_unprocessable_witness :
  no_match "create_task" [] = true /\
  name (function (tool_call "1" "create_task" "{title: buy milk"))
  = "create_task" /\
  validating_parse
    (arguments (function (tool_call "1" "create_task" "{title: buy milk")))
  = inl (ValidationError
           "1 validation error for dict: Invalid JSON: expected value at line 1 column 1") /\
  outcome (get_validated_tool_call validating_parse TaskArgs_model
             "TaskArgs()" "create_task" request_malformed)
  = inl (HTTPException 422
           "Invalid arguments for create_task: 1 validation error for dict: Invalid JSON: expected value at line 1 column 1").
Proof.
  refine (conj eq_refl (conj eq_refl (conj eq_refl _))).
  apply (parser_validation_error_unprocessable TaskArgs validating_parse
           TaskArgs_model "TaskArgs()" "create_task" []
           (tool_call "1" "create_task" "{title: buy milk") []
           "1 validation error for dict: Invalid JSON: expected value at line 1 column 1"
           eq_refl eq_refl eq_refl).
Defined.

(** The first create_task call lacks its title and the second has it: the
    answer is the 422 of the first. *)
Lemma first_failure_is_final_witness :
  no_match "create_task" [] = true /\
  name (function (tool_call "1" "create_task" "{}")) = "create_task" /\
  decode sample_parse TaskArgs_model "TaskArgs()"
    (arguments (function (tool_call "1" "create_task" "{}")))
  = inl (ValidationError
           "1 validation error for TaskArgs: title: Field required") /\
  exists s d,
    outcome (get_validated_tool_call sample_parse TaskArgs_model "TaskArgs()"
               "create_task" request_second_valid)
    = inl (HTTPException s d) /\ s = 422.
Proof.
  refine (conj eq_refl (conj eq_refl (conj eq_refl _))).
  destruct (first_failure_is_final TaskArgs sample_parse TaskArgs_model
              "TaskArgs()" "create_task" []
              (tool_call "1" "create_task" "{}")
              [tool_call "2" "create_task" task_json]
              (ValidationError
                 "1 validation error for TaskArgs: title: Field required")
              eq_refl eq_refl eq_refl) as (e' & Hhandler & Hvalidator & Hhttp).
  cbn in Hhttp. destruct Hhttp as (s & d & ->).
  exists s, d. split; [exact Hvalidator|].
  cbn in Hhandler. now injection Hhandler as <- _.
Defined.

(** * Properties of the session provider *)

Lemma count_opened_app a b :
  count_opened (a ++ b) = (count_opened a + count_opened b)%nat.
Proof.
  induction a as [|[] a IH]; simpl; congruence.
Qed.

Lemma count_closes_app a b :
  count_closes (a ++ b) = (count_closes a + count_closes b)%nat.
Proof.
  induction a as [|[] a IH]; simpl; congruence.
Qed.

Lemma count_closed_app db a b :
  count_closed db (a ++ b) = (count_closed db a + count_closed db b)%nat.
Proof.
  induction a as [|[s|s q|s] a IH]; simpl; auto.
  destruct (Nat.eqb s db); simpl; congruence.
Qed.

(** Queries open nothing and close nothing. *)
Lemma count_used db queries :
  count_opened (map (Used db) queries) = 0%nat /\
  count_closes (map (Used db) queries) = 0%nat /\
  forall s, count_closed s (map (Used db) queries) = 0%nat.
Proof.
  induction queries as [|q queries (IH1 & IH2 & IH3)]; simpl; auto.
Qed.

(** Leaving the suspended generator, either way, closes its session and
    finishes it. *)
Lemma get_db_resumed db r w :
  exists res, get_db (AtYield db) r w = ([Closed db], (Finished, res), w) /\
              res = match r with Next => StopAsyncIteration | Throw e => Raise e end.
Proof. destruct r; eexists; split; reflexivity. Qed.

(** A finished generator does nothing more, however it is resumed. *)
Lemma get_db_finished r w :
  fst (fst (get_db Finished r w)) = [] /\ snd (get_db Finished r w) = w /\
  fst (snd (fst (get_db Finished r w))) = Finished.
Proof. now destruct r. Qed.

(** C7.  Around any requestor's scope, whether it completes or fails, one
    invocation of get_db opens one session, hands it to the scope, and
    closes it once, after the scope's last use of it; the scope's value or
    error is what comes out.  The generator is then finished, and resuming
    it again closes nothing. *)
Theorem get_db_closes_once (A : Type) (body : scope A) (w : world) :
  let db := next_session w in
  let evs := fst (fst (with_get_db body w)) in
  evs = (Opened db :: map (Used db) (fst (body db)) ++ [Closed db])%list
  /\ snd (fst (with_get_db body w)) = snd (body db)
  /\ count_opened evs = 1%nat
  /\ count_closes evs = 1%nat
  /\ count_closed db evs = 1%nat
  /\ (forall r w', fst (fst (get_db Finished r w')) = []).
Proof.
  intros db evs.
  assert (Hevs : evs = (Opened db :: map (Used db) (fst (body db))
                          ++ [Closed db])%list).
  { subst evs. unfold with_get_db. cbn -[map]. fold db.
    destruct (body db) as [queries [e|a]]; reflexivity. }
  destruct (count_used db (fst (body db))) as (Hopen & Hcloses & Hclosed).
  split; [exact Hevs|]. split.
  { unfold with_get_db. cbn -[map]. fold db.
    destruct (body db) as [queries [e|a]]; reflexivity. }
  rewrite Hevs. cbn [count_opened count_closes count_closed].
  rewrite count_opened_app, count_closes_app, count_closed_app,
    Hopen, Hcloses, Hclosed.
  cbn. rewrite Nat.eqb_refl.
  do 3 (split; [reflexivity|]).
  intros r w'. apply get_db_finished.
Qed.

(** * Properties of the repository factories *)

Lemma yield_once_raises R (make : Session -> R) db fr r e :
  snd (yield_once make db fr r) = Raise e -> r = Throw e.
Proof.
  destruct fr, r; cbn; intros H; try discriminate; now injection H as ->.
Qed.

(** C8.  Given a session, each of the three factories yields, on its first
    resumption, the repository built from that session and bound to it, for
    every session alike; and a factory raises only what its requestor threw
    into it. *)
Theorem repository_factories_bind_session (db : Session) :
  (get_todo_repository db Created Next
   = (AtYield tt, Yield {| todo_db := db |})
   /\ get_reminder_repository db Created Next
      = (AtYield tt, Yield {| reminder_db := db |})
   /\ get_calendar_event_repository db Created Next
      = (AtYield tt, Yield {| calendar_event_db := db |}))
  /\ (forall fr r e,
        (snd (get_todo_repository db fr r) = Raise e -> r = Throw e)
        /\ (snd (get_reminder_repository db fr r) = Raise e -> r = Throw e)
        /\ (snd (get_calendar_event_repository db fr r) = Raise e
            -> r = Throw e)).
Proof.
  split; [repeat split|].
  intros fr r e. repeat split; apply yield_once_raises.
Qed.

(** * Further properties of the session provider and the factories *)

(** One invocation around a scope, in one equation. *)
Lemma with_get_db_run A (body : scope A) w :
  with_get_db body w =
  ((Opened (next_session w)
      :: map (Used (next_session w)) (fst (body (next_session w)))
      ++ [Closed (next_session w)])%list,
   snd (body (next_session w)),
   {| next_session := S (next_session w) |}).
Proof.
  unfold with_get_db. cbn -[map].
  destruct (body (next_session w)) as [queries [e|a]]; reflexivity.
Qed.

Lemma still_open_app a b open :
  still_open (a ++ b) open = still_open b (still_open a open).
Proof.
  revert open. induction a as [|ev a IH]; intros open; [reflexivity|].
  cbn. apply IH.
Qed.

Lemma peak_open_ge evs open : (length open <= peak_open evs open)%nat.
Proof. destruct evs; cbn; lia. Qed.

Lemma peak_open_app a b open :
  peak_open (a ++ b) open =
  Nat.max (peak_open a open) (peak_open b (still_open a open)).
Proof.
  revert open. induction a as [|ev a IH]; intros open; cbn.
  - pose proof (peak_open_ge b open). lia.
  - rewrite IH. lia.
Qed.

(** Queries leave the set of open sessions as it is. *)
Lemma used_open db queries open :
  still_open (map (Used db) queries) open = open /\
  peak_open (map (Used db) queries) open = length open.
Proof.
  induction queries as [|q queries [IH1 IH2]]; [now split|].
  cbn. rewrite IH1, IH2. split; [reflexivity | lia].
Qed.

(** The events of one invocation open one session and leave none open. *)
Lemma one_request_open db queries :
  still_open (Opened db :: map (Used db) queries ++ [Closed db]) [] = [] /\
  peak_open (Opened db :: map (Used db) queries ++ [Closed db]) [] = 1%nat.
Proof.
  cbn [still_open peak_open track].
  rewrite still_open_app, peak_open_app.
  destruct (used_open db queries [db]) as [-> ->].
  cbn. destruct (Nat.eq_dec db db); [now split | contradiction].
Qed.

Lemma one_request_closed db queries s :
  count_closed s (Opened db :: map (Used db) queries ++ [Closed db]) =
  if Nat.eqb db s then 1%nat else 0%nat.
Proof.
  cbn [count_closed].
  rewrite count_closed_app, (proj2 (proj2 (count_used db queries))).
  cbn [count_closed Nat.add]. now destruct (Nat.eqb db s).
Qed.

(** Requests served one after the other, whatever each scope does and
    however it ends: each gets a session of its own, as many sessions are
    opened as closed as there are requests, each of them is closed once, at
    most one is open at any time, none is left open at the end, and every
    scope's value or error comes out in its place. *)
Theorem serve_sessions (A : Type) (bodies : list (scope A)) (w : world) :
  let evs := fst (fst (serve bodies w)) in
  snd (fst (serve bodies w)) = outcomes_from (next_session w) bodies
  /\ count_opened evs = length bodies
  /\ count_closes evs = length bodies
  /\ (forall s, count_closed s evs =
                if (Nat.leb (next_session w) s
                    && Nat.ltb s (next_session w + length bodies))%bool
                then 1%nat else 0%nat)
  /\ (peak_open evs [] <= 1)%nat
  /\ still_open evs [] = [].
Proof.
  revert w. induction bodies as [|body bodies IH]; intros w.
  - cbn [serve fst snd outcomes_from count_opened count_closes count_closed
          peak_open still_open length].
    do 3 (split; [reflexivity|]). split; [|split; [lia | reflexivity]].
    intros s. rewrite Nat.add_0_r.
    destruct (Nat.leb_spec (next_session w) s),
      (Nat.ltb_spec s (next_session w)); cbn; lia.
  - cbn [serve]. rewrite with_get_db_run.
    specialize (IH {| next_session := S (next_session w) |}).
    destruct (serve bodies _) as [[evs2 ress] w2]. cbn [fst snd] in *.
    cbn [next_session] in IH.
    destruct IH as (Hres & Hopen & Hcloses & Hclosed & Hpeak & Hstill).
    set (db := next_session w) in *.
    set (qs := fst (body db)).
    destruct (count_used db qs) as (Uo & Uc & Ud).
    destruct (one_request_open db qs) as (Ostill & Opeak).
    split; [cbn; now rewrite Hres|].
    split.
    { cbn [app count_opened]. rewrite <- app_assoc, !count_opened_app, Uo.
      cbn. now rewrite Hopen. }
    split.
    { cbn [app count_closes]. rewrite <- app_assoc, !count_closes_app, Uc.
      cbn. now rewrite Hcloses. }
    split.
    { intros s. rewrite count_closed_app, one_request_closed, Hclosed.
      cbn [length].
      destruct (Nat.eqb_spec db s), (Nat.leb_spec (S db) s),
        (Nat.ltb_spec s (S db + length bodies)),
        (Nat.leb_spec db s), (Nat.ltb_spec s (db + S (length bodies)));
        cbn [andb Nat.add]; lia. }
    split.
    { rewrite peak_open_app, Ostill, Opeak. lia. }
    now rewrite still_open_app, Ostill.
Qed.

Lemma with_yield_once_run R A (make : Session -> R)
    (endpoint : R -> list string * (exn + A)) w :
  with_repository (yield_once make) endpoint w =
  ((Opened (next_session w)
      :: map (Used (next_session w))
             (fst (endpoint (make (next_session w))))
      ++ [Closed (next_session w)])%list,
   snd (endpoint (make (next_session w))),
   {| next_session := S (next_session w) |}).
Proof.
  unfold with_repository. rewrite with_get_db_run. cbn -[map].
  destruct (endpoint (make (next_session w))) as [queries [e|a]]; reflexivity.
Qed.

(** An endpoint that depends on one of the three repositories receives the
    repository bound to the session of its own request; that session is
    opened before the endpoint runs and closed once after it, whether the
    endpoint returns or fails, and what the endpoint returned or raised is
    what comes out. *)
Theorem repository_in_request_scope (A : Type)
    (todo : TodoRepository -> list string * (exn + A))
    (reminder : ReminderRepository -> list string * (exn + A))
    (calendar : CalendarEventRepository -> list string * (exn + A))
    (w : world) :
  let db := next_session w in
  let run {R} (repo : R) (endpoint : R -> list string * (exn + A)) :=
    ((Opened db :: map (Used db) (fst (endpoint repo)) ++ [Closed db])%list,
     snd (endpoint repo), {| next_session := S db |}) in
  with_repository get_todo_repository todo w
  = run {| todo_db := db |} todo
  /\ with_repository get_reminder_repository reminder w
     = run {| reminder_db := db |} reminder
  /\ with_repository get_calendar_event_repository calendar w
     = run {| calendar_event_db := db |} calendar.
Proof.
  intros db run. unfold get_todo_repository, get_reminder_repository,
    get_calendar_event_repository.
  repeat split; apply with_yield_once_run.
Qed.

Lemma drive_finished rs w : drive Finished rs w = ([], Finished, w).
Proof.
  induction rs as [|r rs IH]; [reflexivity|].
  cbn [drive]. destruct r; cbn; now rewrite IH.
Qed.

Lemma drive_at_yield db rs w :
  drive (AtYield db) rs w =
  match rs with
  | [] => ([], AtYield db, w)
  | _ :: _ => ([Closed db], Finished, w)
  end.
Proof.
  destruct rs as [|r rs]; [reflexivity|].
  cbn [drive]. destruct r; cbn; now rewrite drive_finished.
Qed.

(** However [get_db] is driven, by any sequence of resumptions and thrown
    exceptions, it opens at most one session, closes nothing but that
    session, and closes it at most once: its events are the session's
    opening while it is suspended at its yield, the opening and the closing
    once it finished after yielding, and nothing when an exception was
    thrown into it before it started. *)
Theorem get_db_protocol (rs : list resume) (w : world) :
  let db := next_session w in
  let evs := fst (fst (drive Created rs w)) in
  match snd (fst (drive Created rs w)) with
  | Created => rs = [] /\ evs = []
  | AtYield s => rs = [Next] /\ s = db /\ evs = [Opened db]
  | Finished =>
      match rs with
      | Next :: _ :: _ => evs = [Opened db; Closed db]
      | _ => evs = []
      end
  end.
Proof.
  destruct rs as [|[|e] rs]; cbn [drive].
  - now split.
  - cbn [get_db SessionLocal]. rewrite drive_at_yield.
    destruct rs; cbn; auto.
  - cbn [get_db]. rewrite drive_finished. reflexivity.
Qed.
